(** * ScribbleSpace: the note editor's debounced save and the note store

    A shallow embedding of [src/App.js].  The first part embeds the
    [EditScreen] component: its [note] state, the save effect that arms a
    500 ms timeout capturing the rendered [note], the [saveNote] closure split
    at its [await], and [handleDelete].  The second part embeds the
    [HomeScreen] view and a model of the [./db] hooks that [App.js] imports. *)

From stdpp Require Import list strings.
From Stdlib Require Import Ascii.

Local Open Scope string_scope.
Local Open Scope list_scope.
Local Open Scope nat_scope.

(** ** JavaScript values used by the editor *)

(** A backend-assigned identifier.  The source only tests [note.id] for
    truthiness and passes it through, so an identifier is a truthy value
    (a non-zero number); an absent [id] is [None]. *)
Definition Id := positive.
Bind Scope positive_scope with Id.

(** A note object as the editor holds it.  A property that is missing from
    the object ([undefined] when read) is [None]. *)
Record Note := mkNote {
  id : option Id;
  title : option string;
  content : option string
}.

(** The object literal [{}]: what [{ ...undefined }] evaluates to. *)
Definition emptyObject : Note := mkNote None None None.

(** [{ title: '', content: '' }], the route parameter of the "+" button. *)
Definition newNote : Note := mkNote None (Some "") (Some "").

(** [{ ...prev, title: text }] and [{ ...prev, content: text }]. *)
Definition withTitle (text : string) (prev : Note) : Note :=
  mkNote (id prev) (Some text) (content prev).

Definition withContent (text : string) (prev : Note) : Note :=
  mkNote (id prev) (title prev) (Some text).

(** [{ ...data }] where [data] may be [undefined]. *)
Definition spread (data : option Note) : Note :=
  match data with
  | Some d => d
  | None => emptyObject
  end.

(** [note.title || 'New Note']: the empty string and [undefined] are falsy. *)
Definition titleOrDefault (n : Note) : string :=
  match title n with
  | Some EmptyString | None => "New Note"
  | Some t => t
  end.

(** A call of one of the mutation triggers, with its argument object. *)
Inductive Write :=
| AddNote (t c : option string)
| UpdateNote (i : Id) (t c : option string)
| DeleteNote (i : Id).

(** What an awaited trigger resolves to: [{ data }] or [{ error }]. *)
Record Result := mkResult {
  data : option Note;
  error : option string
}.

Inductive Exn := TypeError.

Global Instance Note_eq_dec : EqDecision Note.
Proof. solve_decision. Defined.

Global Instance Write_eq_dec : EqDecision Write.
Proof. solve_decision. Defined.

Definition isAdd (w : Write) : bool :=
  match w with AddNote _ _ => true | _ => false end.

(** ** The EditScreen component *)

(** The debounce delay of [setTimeout(saveNote, 500)], in milliseconds. *)
Definition debounce : nat := 500.

Record EditScreen := mkScreen {
  mounted : bool;
  (** [const [note, setNote] = useState(initialNote)] *)
  note : Note;
  (** the pending timeout: milliseconds left and the [note] that the
      [saveNote] closure of that render captured *)
  timeoutId : option (nat * Note);
  (** awaited trigger calls that have not resolved yet, oldest first *)
  pending : list Write;
  (** every trigger call made so far, oldest first *)
  calls : list Write;
  (** the [error] of each mutation hook: that of the hook's latest call,
      [undefined] while that call is awaited *)
  addError : option string;
  updateError : option string;
  deleteError : option string;
  (** whether the latest call of each hook is still awaited *)
  addLoading : bool;
  updateLoading : bool;
  deleteLoading : bool;
  (** the last [navigation.setOptions({ title })] *)
  headerTitle : option string;
  (** exceptions that escaped an async function *)
  uncaught : list Exn
}.

Definition setTimeoutId (t : option (nat * Note)) (s : EditScreen) : EditScreen :=
  mkScreen (mounted s) (note s) t (pending s) (calls s)
           (addError s) (updateError s) (deleteError s)
           (addLoading s) (updateLoading s) (deleteLoading s)
           (headerTitle s) (uncaught s).

Definition setPending (p : list Write) (s : EditScreen) : EditScreen :=
  mkScreen (mounted s) (note s) (timeoutId s) p (calls s)
           (addError s) (updateError s) (deleteError s)
           (addLoading s) (updateLoading s) (deleteLoading s)
           (headerTitle s) (uncaught s).

Definition setHeaderTitle (h : option string) (s : EditScreen) : EditScreen :=
  mkScreen (mounted s) (note s) (timeoutId s) (pending s) (calls s)
           (addError s) (updateError s) (deleteError s)
           (addLoading s) (updateLoading s) (deleteLoading s)
           h (uncaught s).

Definition throw (e : Exn) (s : EditScreen) : EditScreen :=
  mkScreen (mounted s) (note s) (timeoutId s) (pending s) (calls s)
           (addError s) (updateError s) (deleteError s)
           (addLoading s) (updateLoading s) (deleteLoading s)
           (headerTitle s) (uncaught s ++ [e]).

Definition isUpdate (w : Write) : bool :=
  match w with UpdateNote _ _ _ => true | _ => false end.

Definition isDelete (w : Write) : bool :=
  match w with DeleteNote _ => true | _ => false end.

(** The two calls were made through the same mutation hook. *)
Definition sameHook (w w' : Write) : bool :=
  (isAdd w && isAdd w') || (isUpdate w && isUpdate w')
  || (isDelete w && isDelete w').

(** The latest call of the hook of [w] is still awaited. *)
Definition hookLoading (w : Write) (s : EditScreen) : bool :=
  match w with
  | AddNote _ _ => addLoading s
  | UpdateNote _ _ _ => updateLoading s
  | DeleteNote _ => deleteLoading s
  end.

(** The k-th pending call, [w], is the latest call of its hook: that call
    is still awaited and no call of the same hook was made after [w]. *)
Definition isLatestCall (k : nat) (w : Write) (s : EditScreen) : bool :=
  hookLoading w s
  && forallb (fun w' => negb (sameHook w w')) (drop (S k) (pending s)).

(** Calling a trigger: the request goes out at once and the caller awaits;
    the hook now follows this call, so its error is cleared. *)
Definition trigger (w : Write) (s : EditScreen) : EditScreen :=
  mkScreen (mounted s) (note s) (timeoutId s) (pending s ++ [w]) (calls s ++ [w])
           (if isAdd w then None else addError s)
           (if isUpdate w then None else updateError s)
           (if isDelete w then None else deleteError s)
           (isAdd w || addLoading s)
           (isUpdate w || updateLoading s)
           (isDelete w || deleteLoading s)
           (headerTitle s) (uncaught s).

(** The call [w] has settled with [result]: its hook takes the result's
    error when [w] is the call the hook follows ([latest]), and is left as
    it is when [w] is an older call. *)
Definition hookSettled (latest : bool) (w : Write) (result : Result)
           (s : EditScreen) : EditScreen :=
  mkScreen (mounted s) (note s) (timeoutId s) (pending s) (calls s)
           (if isAdd w && latest then error result else addError s)
           (if isUpdate w && latest then error result else updateError s)
           (if isDelete w && latest then error result else deleteError s)
           (if isAdd w && latest then false else addLoading s)
           (if isUpdate w && latest then false else updateLoading s)
           (if isDelete w && latest then false else deleteLoading s)
           (headerTitle s) (uncaught s).

(** [setNote(n')] on a mounted screen, followed by the render it causes.
    The state always receives a fresh object, so both effects see their
    dependencies compared: the header effect runs when [note.title] changed,
    and the save effect always runs, its cleanup clearing the previous timeout
    before a new one is set with the new [note] in its closure.  On an
    unmounted screen the state update is dropped. *)
Definition setNote (n' : Note) (s : EditScreen) : EditScreen :=
  if mounted s then
    mkScreen true n' (Some (debounce, n')) (pending s) (calls s)
             (addError s) (updateError s) (deleteError s)
             (addLoading s) (updateLoading s) (deleteLoading s)
             (if decide (title n' = title (note s)) then headerTitle s
              else Some (titleOrDefault n'))
             (uncaught s)
  else s.

(** Leaving the screen: the cleanup of the save effect clears the timeout. *)
Definition goBack (s : EditScreen) : EditScreen :=
  mkScreen false (note s) None (pending s) (calls s)
           (addError s) (updateError s) (deleteError s)
           (addLoading s) (updateLoading s) (deleteLoading s)
           (headerTitle s) (uncaught s).

(** [saveNote] up to its [await]: which trigger it calls, with which
    argument, for the [note] of its closure. *)
Definition saveNote (n : Note) : Write :=
  match id n with
  | Some i => UpdateNote i (title n) (content n)
  | None => AddNote (title n) (content n)
  end.

(** [saveNote] after its [await], in the add branch:
    [setNote({ ...result.data })] and then
    [navigation.setOptions({ title: result.data.title })], whose property
    read throws when [result.data] is [undefined].  [setOptions] is called
    whether or not the screen is still mounted, and runs before the render
    that [setNote] scheduled. *)
Definition saveNoteResumeAdd (result : Result) (s : EditScreen) : EditScreen :=
  match data result with
  | Some d => setNote (spread (data result)) (setHeaderTitle (title d) s)
  | None => throw TypeError (setNote (spread (data result)) s)
  end.

(** The continuation of an awaited call once it resolves with [result];
    [latest] tells whether its hook follows this call. *)
Definition resume (w : Write) (result : Result) (latest : bool)
           (s : EditScreen) : EditScreen :=
  match w with
  | AddNote _ _ => saveNoteResumeAdd result (hookSettled latest w result s)
  | UpdateNote _ _ _ => hookSettled latest w result s
  | DeleteNote _ => goBack (hookSettled latest w result s)
  end.

(** [handleDelete] up to its [await] (or to its end when there is no id). *)
Definition handleDelete (s : EditScreen) : EditScreen :=
  match id (note s) with
  | Some i => trigger (DeleteNote i) s
  | None => goBack s
  end.

(** What can happen to a screen. *)
Inductive Event :=
| ChangeTitle (text : string)       (* onChangeText of the title input *)
| ChangeContent (text : string)     (* onChangeText of the content input *)
| Elapse (ms : nat)                 (* [ms] milliseconds pass *)
| Settle (k : nat) (result : Result)  (* the k-th pending call resolves *)
| PressDelete
| NavigateAway.

Definition step (e : Event) (s : EditScreen) : EditScreen :=
  match e with
  | ChangeTitle text =>
      if mounted s then setNote (withTitle text (note s)) s else s
  | ChangeContent text =>
      if mounted s then setNote (withContent text (note s)) s else s
  | Elapse ms =>
      match timeoutId s with
      | Some (remaining, n) =>
          if (ms <? remaining)%nat then setTimeoutId (Some ((remaining - ms)%nat, n)) s
          else trigger (saveNote n) (setTimeoutId None s)
      | None => s
      end
  | Settle k result =>
      match pending s !! k with
      | Some w =>
          resume w result (isLatestCall k w s)
                 (setPending (delete k (pending s)) s)
      | None => s
      end
  | PressDelete => if mounted s then handleDelete s else s
  | NavigateAway => goBack s
  end.

Definition run (es : list Event) (s : EditScreen) : EditScreen :=
  foldl (fun s e => step e s) s es.

(** Opening the screen on [initialNote]: the first render runs both effects,
    so the header is set and the first timeout is armed. *)
Definition mount (initialNote : Note) : EditScreen :=
  mkScreen true initialNote (Some (debounce, initialNote)) [] []
           None None None false false false
           (Some (titleOrDefault initialNote)) [].

(** ** A burst of edits *)

(** A user edit of one of the two text inputs. *)
Inductive Edit :=
| EditTitle (text : string)
| EditContent (text : string).

Definition editEvent (e : Edit) : Event :=
  match e with
  | EditTitle text => ChangeTitle text
  | EditContent text => ChangeContent text
  end.

(** The functional updater that the edit passes to [setNote]. *)
Definition applyEdit (e : Edit) (prev : Note) : Note :=
  match e with
  | EditTitle text => withTitle text prev
  | EditContent text => withContent text prev
  end.

Definition applyEdits (es : list Edit) (n : Note) : Note :=
  foldl (fun n e => applyEdit e n) n es.

(** The edits that follow the first one, each after a pause of [gap] ms. *)
Fixpoint burst (rest : list (nat * Edit)) : list Event :=
  match rest with
  | [] => []
  | (gap, e) :: rest' => Elapse gap :: editEvent e :: burst rest'
  end.

Definition lastEdit (e1 : Edit) (rest : list (nat * Edit)) : Edit :=
  default e1 (last (rest.*2)).

(** The write carries the text of edit [e] in the field [e] changed. *)
Definition carries (w : Write) (e : Edit) : Prop :=
  match e, w with
  | EditTitle text, AddNote t _ => t = Some text
  | EditTitle text, UpdateNote _ t _ => t = Some text
  | EditContent text, AddNote _ c => c = Some text
  | EditContent text, UpdateNote _ _ c => c = Some text
  | _, DeleteNote _ => False
  end.

(** A screen whose timeout was armed by the render of its current [note]
    and has its full delay left. *)
Definition armed (s : EditScreen) : Prop :=
  mounted s = true /\ timeoutId s = Some (debounce, note s).

(** ** Predicates on screens and the sessions studied below *)

(** The session's note carries id [i], so does the note captured by any
    pending timeout, and no add is awaiting its result. *)
Definition persisted (i : Id) (s : EditScreen) : Prop :=
  id (note s) = Some i
  /\ (forall remaining n, timeoutId s = Some (remaining, n) -> id n = Some i)
  /\ Forall (fun w => isAdd w = false) (pending s).

(** A call that targets the persisted note [i]. *)
Definition targets (i : Id) (w : Write) : Prop :=
  match w with
  | AddNote _ _ => False
  | UpdateNote j _ _ => j = i
  | DeleteNote j => j = i
  end.

(** The session's note has not been given an id. *)
Definition unsaved (s : EditScreen) : Prop := id (note s) = None.

(** A screen that was left: unmounted, its timeout cleared. *)
Definition ended (s : EditScreen) : Prop :=
  mounted s = false /\ timeoutId s = None.



(** A fulfilled result carrying the record the backend stored. *)
Definition fulfilled (i : Id) (t c : string) : Result :=
  mkResult (Some (mkNote (Some i) (Some t) (Some c))) None.

(** A rejected result: an error and no data. *)
Definition rejected (msg : string) : Result := mkResult None (Some msg).

(** A session whose first add takes longer than the delay to complete. *)
Definition slowAdd : list Event :=
  [ChangeTitle "A"; Elapse 500; ChangeTitle "AB"; Elapse 500;
   Settle 0 (fulfilled 1 "A" "")].

(** A session with an edit typed while the add is awaited. *)
Definition editDuringAdd : list Event :=
  [ChangeTitle "A"; Elapse 500; ChangeTitle "AB"; Elapse 100;
   Settle 0 (fulfilled 1 "A" ""); Elapse 500].

(** A session whose add is rejected by the backend. *)
Definition addRejected : list Event :=
  [ChangeTitle "A"; Elapse 500; Settle 0 (rejected "write failed")].

(** * The note store behind the hooks of [./db] *)

Module Db.

(** Modelled from the spec: a persisted note of the data model (section 3);
    the module [./db] that declares it is not among the sources.  A
    persisted note always has its identifier. *)
Record Note := mkNote {
  id : Id;
  title : string;
  content : string
}.

Global Instance Note_eq_dec : EqDecision Note.
Proof. solve_decision. Defined.

(** Modelled from the spec: the error taxonomy of section 7. *)
Inductive Error := StorageUnavailable | PersistenceError | NotFound.

(** Modelled from the spec: what a mutation reports to its caller, a value
    or an error (section 6). *)
Inductive Reply (A : Type) :=
| Ok (a : A)
| Failed (e : Error).
Arguments Ok {A} a.
Arguments Failed {A} e.

(** *** Matching *)

(** Modelled from the spec: case-insensitive comparison (section 3, matching
    rule), taken here as folding the ASCII capitals to lower case. *)
Definition toLowerAscii (c : ascii) : ascii :=
  let n := nat_of_ascii c in
  if (65 <=? n) && (n <=? 90) then ascii_of_nat (n + 32) else c.

(** Modelled from the spec: the lower-casing of a whole text, used by the
    matching rule of section 3. *)
Fixpoint toLowerCase (s : string) : string :=
  match s with
  | EmptyString => EmptyString
  | String c s' => String (toLowerAscii c) (toLowerCase s')
  end.

(** Modelled from the spec: [s] begins with [p]; the substring test of the
    matching rule tries it at every position. *)
Fixpoint startsWith (p s : string) : bool :=
  match p, s with
  | EmptyString, _ => true
  | String a p', String b s' => Ascii.eqb a b && startsWith p' s'
  | String _ _, EmptyString => false
  end.

(** Modelled from the spec: [q] occurs somewhere in [s] (section 3,
    "is a substring of"): a scan over the start positions. *)
Fixpoint includes (q s : string) : bool :=
  startsWith q s ||
  match s with
  | EmptyString => false
  | String _ s' => includes q s'
  end.

(** Modelled from the spec: the matching rule of section 3, "a note matches
    if the query (case-insensitive) is a substring of title or of
    content". *)
Definition matches (q : string) (n : Note) : bool :=
  includes (toLowerCase q) (toLowerCase (title n))
  || includes (toLowerCase q) (toLowerCase (content n)).

(** Modelled from the spec: the linear scan of the Note Index that
    re-filters a query (section 4.2), keeping the index order. *)
Fixpoint search (q : string) (notes : list Note) : list Note :=
  match notes with
  | [] => []
  | n :: notes' =>
      if matches q n then n :: search q notes' else search q notes'
  end.

(** The matching rule in the words of the spec: [q] is a substring of [s],
    and case-insensitively so once both are lower-cased. *)
Definition Substring (q s : string) : Prop :=
  exists pre suf, s = pre +:+ q +:+ suf.

Definition ContainsCI (q s : string) : Prop :=
  Substring (toLowerCase q) (toLowerCase s).

(** *** The store *)

(** Modelled from the spec: a subscription of the Query Cache (section 3):
    its query and the results delivered to its consumer so far, oldest
    first. *)
Record Subscription := mkSub {
  query : string;
  seen : list (list Note)
}.

(** Modelled from the spec: the store of section 2, past its initial load.
    [backend] is the
    Persistence Backend's table, [index] the Note Index in insertion order,
    [nextId] the identifier the backend assigns next, [inserted] the
    identifiers in the order their notes entered the index, and [subs] the
    live subscriptions. *)
Record Store := mkStore {
  backend : list Note;
  index : list Note;
  nextId : Id;
  inserted : list Id;
  subs : list Subscription
}.

(** Modelled from the spec: the store after [load] found no notes
    (section 4.1). *)
Definition empty : Store := mkStore [] [] 1 [] [].

(** Modelled from the spec: one subscription recomputing its filtered view
    and delivering it (section 4.2). *)
Definition recompute (idx : list Note) (sub : Subscription) : Subscription :=
  mkSub (query sub) (seen sub ++ [search (query sub) idx]).

(** Modelled from the spec: [notifyMutation] (section 4.2): every live
    subscription recomputes its view from the updated index. *)
Definition notifyMutation (s : Store) : Store :=
  mkStore (backend s) (index s) (nextId s) (inserted s)
          (recompute (index s) <$> subs s).

(** Modelled from the spec: "[id] corresponds to an existing note"
    (section 4.3). *)
Definition known (i : Id) (notes : list Note) : Prop := i ∈ id <$> notes.

Global Instance known_dec (i : Id) (notes : list Note) : Decision (known i notes).
Proof. unfold known, Id. apply _. Defined.

(** Modelled from the spec: replacing the record of an id in place,
    "preserving its position for ordering" (section 4.3). *)
Definition replace (n' : Note) (notes : list Note) : list Note :=
  (fun n => if decide (id n = id n') then n' else n) <$> notes.

(** Modelled from the spec: removing the record of an id (section 4.3). *)
Definition without (i : Id) (notes : list Note) : list Note :=
  filter (fun n => id n ≠ i) notes.

(** Modelled from the spec: [add] (section 4.3).  [fault] tells whether the
    backend write fails; on success the backend assigns the identifier and
    the note is appended to the index. *)
Definition add (fault : bool) (t c : string) (s : Store) : Store * Reply Note :=
  if fault then (s, Failed PersistenceError)
  else
    let n := mkNote (nextId s) t c in
    (notifyMutation
       (mkStore (backend s ++ [n]) (index s ++ [n]) (Pos.succ (nextId s))
                (inserted s ++ [nextId s]) (subs s)),
     Ok n).

(** Modelled from the spec: [update] (section 4.3): NotFound for an unknown
    id, the index left unchanged when the backend fails, and in-place
    replacement on success. *)
Definition update (fault : bool) (i : Id) (t c : string) (s : Store)
  : Store * Reply Note :=
  if decide (known i (index s)) then
    if fault then (s, Failed PersistenceError)
    else
      let n := mkNote i t c in
      (notifyMutation
         (mkStore (replace n (backend s)) (replace n (index s)) (nextId s)
                  (inserted s) (subs s)),
       Ok n)
  else (s, Failed NotFound).

(** Modelled from the spec: [delete] / [remove] (sections 4.3 and 6): a
    silent no-op for an unknown id, removal and notification on backend
    success. *)
Definition remove (fault : bool) (i : Id) (s : Store) : Store * Reply unit :=
  if decide (known i (index s)) then
    if fault then (s, Failed PersistenceError)
    else
      (notifyMutation
         (mkStore (without i (backend s)) (without i (index s)) (nextId s)
                  (inserted s) (subs s)),
       Ok ())
  else (s, Ok ()).

(** Modelled from the spec: [deleteAll] (section 4.3): backend and index
    are cleared together and the subscriptions are notified once, after
    both. *)
Definition deleteAll (fault : bool) (s : Store) : Store * Reply unit :=
  if fault then (s, Failed PersistenceError)
  else
    (notifyMutation (mkStore [] [] (nextId s) (inserted s) (subs s)), Ok ()).

(** Modelled from the spec: [subscribe] (section 4.2): the data being
    loaded, the current matching set is computed on registration. *)
Definition subscribe (q : string) (s : Store) : Store :=
  mkStore (backend s) (index s) (nextId s) (inserted s)
          (subs s ++ [mkSub q [search q (index s)]]).

(** Modelled from the spec: [onQueryChange] (section 4.2): the j-th
    subscription takes the new query and re-filters the present index. *)
Definition onQueryChange (j : nat) (q : string) (s : Store) : Store :=
  mkStore (backend s) (index s) (nextId s) (inserted s)
          (alter (fun sub => mkSub q (seen sub ++ [search q (index s)])) j
                 (subs s)).

(** Modelled from the spec: the end of the j-th subscription's lifecycle
    (section 3). *)
Definition unsubscribe (j : nat) (s : Store) : Store :=
  mkStore (backend s) (index s) (nextId s) (inserted s) (delete j (subs s)).

(** Modelled from the spec: everything a consumer can ask of the store
    (section 6), each write with the fault input of its backend call. *)
Inductive Op :=
| Add (fault : bool) (t c : string)
| Update (fault : bool) (i : Id) (t c : string)
| Remove (fault : bool) (i : Id)
| DeleteAll (fault : bool)
| Subscribe (q : string)
| ChangeQuery (j : nat) (q : string)
| Unsubscribe (j : nat).

Definition apply (o : Op) (s : Store) : Store :=
  match o with
  | Add fault t c => (add fault t c s).1
  | Update fault i t c => (update fault i t c s).1
  | Remove fault i => (remove fault i s).1
  | DeleteAll fault => (deleteAll fault s).1
  | Subscribe q => subscribe q s
  | ChangeQuery j q => onQueryChange j q s
  | Unsubscribe j => unsubscribe j s
  end.

Definition runOps (ops : list Op) (s : Store) : Store :=
  foldl (fun s o => apply o s) s ops.




End Db.

(** ** The HomeScreen component *)

(** What [useSearchNotesQuery(search)] hands to the component. *)
Record QueryResult := mkQuery {
  queryData : option (list Db.Note);
  queryError : option string;
  isLoading : bool
}.

(** Modelled from the spec: the hook [useSearchNotesQuery] of [./db], once
    the notes are loaded: the live result of [search] (section 6). *)
Definition useSearchNotesQuery (search : string) (s : Db.Store) : QueryResult :=
  mkQuery (Some (Db.search search (Db.index s))) None false.

Inductive HomeView :=
| ActivityIndicator
| ErrorLoading (message : string)
| NotesGrid (notes : list Db.Note).

(** The render of [HomeScreen]: [notes] defaults to the empty array, the
    loading and error returns come first, and the grid receives [notes] as
    they are. *)
Definition HomeScreen (q : QueryResult) : HomeView :=
  let notes := default [] (queryData q) in
  if isLoading q then ActivityIndicator
  else match queryError q with
       | Some message => ErrorLoading message
       | None => NotesGrid notes
       end.

(** * Further definitions: whole sessions and the home screen's buttons *)

(** The milliseconds that pass in a trace of events. *)
Definition elapsedOf (e : Event) : nat :=
  match e with
  | Elapse ms => ms
  | _ => 0
  end.

Definition elapsed (es : list Event) : nat := sum_list (elapsedOf <$> es).

(** The calls that [saveNote] makes, as opposed to [handleDelete]. *)
Definition isSave (w : Write) : bool :=
  match w with
  | DeleteNote _ => false
  | _ => true
  end.

Definition saves (ws : list Write) : nat := length (List.filter isSave ws).

(** The part of its delay that the pending timeout has already waited. *)
Definition waited (s : EditScreen) : nat :=
  match timeoutId s with
  | Some (remaining, _) => debounce - remaining
  | None => 0
  end.

(** The time accounted for: 500 ms for every save made, plus what the
    pending timeout has waited so far. *)
Definition accounted (s : EditScreen) : nat :=
  debounce * saves (calls s) + waited s.

(** A pending timeout belongs to a mounted screen, captured the note that
    the screen holds now, and has between 1 and 500 ms left. *)
Definition fresh (s : EditScreen) : Prop :=
  match timeoutId s with
  | Some (remaining, n) =>
      mounted s = true /\ n = note s /\ 0 < remaining <= debounce
  | None => True
  end.

Definition isSettle (e : Event) : bool :=
  match e with
  | Settle _ _ => true
  | _ => false
  end.

(** The header shows [note.title || 'New Note']. *)
Definition headerFollowsTitle (s : EditScreen) : Prop :=
  headerTitle s = Some (titleOrDefault (note s)).

(** The [item] of the grid as the route parameter [{ note: item }]. *)
Definition itemNote (item : Db.Note) : Note :=
  mkNote (Some (Db.id item)) (Some (Db.title item)) (Some (Db.content item)).

(** One round of a backend that rejects the pending add, after which the
    delay passes. *)
Definition rejectRound (msg : string) : list Event :=
  [Settle 0 (rejected msg); Elapse debounce].

(** ** The HomeScreen's state and buttons *)

Record Home := mkHome {
  (** [const [search, setSearch] = useState('')] *)
  search : string;
  (** [const [modalVisible, setModalVisible] = useState(false)] *)
  modalVisible : bool;
  (** how many times [deleteAllNotes] was called *)
  deleteAllCalls : nat;
  (** the [{ note }] parameters of the [navigation.navigate('Edit', ...)]
      calls, oldest first *)
  navigated : list Note
}.

(** [handleClearAll]: the confirmation box is hidden and [deleteAllNotes]
    is called once. *)
Definition handleClearAll (h : Home) : Home :=
  mkHome (search h) false (S (deleteAllCalls h)) (navigated h).

Inductive HomeEvent :=
| ChangeSearch (text : string)   (* onChangeText of the search bar *)
| PressItem (item : Db.Note)     (* onPress of a rendered note *)
| PressPlus                      (* the new-note button *)
| PressTrash                     (* the clear-all button *)
| PressCancel                    (* "Cancel" in the confirmation box *)
| RequestClose                   (* onRequestClose of the Modal *)
| PressYes.                      (* "Yes" in the confirmation box *)

(** What the home screen's own state does on each event.  The two buttons
    of the confirmation box exist only while the Modal is visible.  The
    notes themselves live in the store behind the hooks, which the edit
    screens opened from here write to as well; they are no part of this
    state. *)
Definition homeStep (e : HomeEvent) (h : Home) : Home :=
  match e with
  | ChangeSearch text =>
      mkHome text (modalVisible h) (deleteAllCalls h) (navigated h)
  | PressItem item =>
      mkHome (search h) (modalVisible h) (deleteAllCalls h)
             (navigated h ++ [itemNote item])
  | PressPlus =>
      mkHome (search h) (modalVisible h) (deleteAllCalls h)
             (navigated h ++ [newNote])
  | PressTrash =>
      mkHome (search h) true (deleteAllCalls h) (navigated h)
  | PressCancel | RequestClose =>
      mkHome (search h) false (deleteAllCalls h) (navigated h)
  | PressYes => if modalVisible h then handleClearAll h else h
  end.

Definition homeRun (es : list HomeEvent) (h : Home) : Home :=
  foldl (fun h e => homeStep e h) h es.

(** The first render: empty search, hidden confirmation box. *)
Definition homeInit : Home := mkHome "" false 0 [].

Definition isPressTrash (e : HomeEvent) : bool :=
  match e with
  | PressTrash => true
  | _ => false
  end.

Definition trashPresses (es : list HomeEvent) : nat :=
  length (List.filter isPressTrash es).

(** The confirmations given so far, and the one the visible box may still
    give, are covered by [budget] presses of the clear-all button. *)
Definition gated (budget : nat) (h : Home) : Prop :=
  deleteAllCalls h + (if modalVisible h then 1 else 0) <= budget.
(** * Properties of the editor *)

(** Unfolds the field updates of a screen and reads the fields back. *)
Ltac screen_simpl :=
  unfold resume, saveNoteResumeAdd, handleDelete, setNote, goBack, trigger,
    throw, hookSettled, setHeaderTitle, setPending, setTimeoutId in *;
  cbn [mounted note timeoutId pending calls addError updateError deleteError
       addLoading updateLoading deleteLoading headerTitle uncaught
       isAdd isUpdate isDelete andb orb] in *.

(** The call just made through a trigger is the one its hook follows. *)
Lemma isLatestCall_trigger (w : Write) (s : EditScreen) :
  isLatestCall (length (pending s)) w (trigger w s) = true.
Proof.
  unfold isLatestCall. apply andb_true_iff. split.
  - by destruct w.
  - unfold trigger. cbn [pending]. rewrite drop_ge; [done|].
    rewrite length_app. cbn. lia.
Qed.

Lemma run_app (p q : list Event) (s : EditScreen) :
  run (p ++ q) s = run q (run p s).
Proof. unfold run. apply foldl_app. Qed.

Lemma run_cons (e : Event) (es : list Event) (s : EditScreen) :
  run (e :: es) s = run es (step e s).
Proof. reflexivity. Qed.

Lemma id_applyEdit (e : Edit) (n : Note) : id (applyEdit e n) = id n.
Proof. by destruct e. Qed.

Lemma id_applyEdits (es : list Edit) (n : Note) : id (applyEdits es n) = id n.
Proof.
  revert n. induction es as [|e es IH]; intros n; [done|].
  unfold applyEdits in *. cbn. by rewrite IH, id_applyEdit.
Qed.

Section Debounce.

(** An edit of a mounted screen re-arms the timeout and calls nothing. *)
Lemma edit_arms (e : Edit) (s : EditScreen) :
  mounted s = true ->
  armed (step (editEvent e) s)
  /\ calls (step (editEvent e) s) = calls s
  /\ note (step (editEvent e) s) = applyEdit e (note s).
Proof.
  intros Hm. destruct e; cbn; unfold setNote; rewrite Hm; by repeat split.
Qed.

(** A pause shorter than the delay only runs the timeout down. *)
Lemma short_pause (gap : nat) (s : EditScreen) :
  armed s -> gap < debounce ->
  mounted (step (Elapse gap) s) = true
  /\ calls (step (Elapse gap) s) = calls s
  /\ note (step (Elapse gap) s) = note s.
Proof.
  intros [Hm Ht] Hgap. unfold step. rewrite Ht.
  destruct (Nat.ltb_spec gap debounce) as [_|?]; [|lia]. by repeat split.
Qed.

(** Once the delay has passed in full, [saveNote] makes its one call. *)
Lemma quiet_fires (d : nat) (s : EditScreen) :
  armed s -> debounce <= d ->
  calls (step (Elapse d) s) = calls s ++ [saveNote (note s)].
Proof.
  intros [Hm Ht] Hd. unfold step. rewrite Ht.
  destruct (Nat.ltb_spec d debounce) as [?|_]; [lia|]. done.
Qed.

Lemma pause_then_edit (gap : nat) (e : Edit) (s : EditScreen) :
  armed s -> gap < debounce ->
  armed (run [Elapse gap; editEvent e] s)
  /\ calls (run [Elapse gap; editEvent e] s) = calls s
  /\ note (run [Elapse gap; editEvent e] s) = applyEdit e (note s).
Proof.
  intros Ha Hgap.
  destruct (short_pause gap s Ha Hgap) as (Hm & Hc & Hn).
  destruct (edit_arms e _ Hm) as (Ha' & Hc' & Hn').
  cbn [run foldl]. rewrite Hc', Hn', Hc, Hn. done.
Qed.

Lemma burst_run (rest : list (nat * Edit)) (s : EditScreen) :
  armed s -> Forall (fun ge => ge.1 < debounce) rest ->
  armed (run (burst rest) s)
  /\ calls (run (burst rest) s) = calls s
  /\ note (run (burst rest) s) = applyEdits (rest.*2) (note s).
Proof.
  revert s. induction rest as [|[gap e] rest IH]; intros s Ha Hgaps.
  - done.
  - apply Forall_cons in Hgaps as [Hgap Hgaps]. cbn in Hgap.
    destruct (pause_then_edit gap e s Ha Hgap) as (Ha' & Hc' & Hn').
    destruct (IH _ Ha' Hgaps) as (Ha'' & Hc'' & Hn'').
    cbn [burst]. change (Elapse gap :: editEvent e :: burst rest)
      with ([Elapse gap; editEvent e] ++ burst rest).
    rewrite run_app. rewrite Hc'', Hn'', Hc', Hn'. done.
Qed.

Lemma burst_prefix_silent (rest : list (nat * Edit)) (s : EditScreen) :
  armed s -> Forall (fun ge => ge.1 < debounce) rest ->
  forall p q, burst rest = p ++ q -> calls (run p s) = calls s.
Proof.
  revert s. induction rest as [|[gap e] rest IH]; intros s Ha Hgaps p q Hpq.
  - cbn in Hpq. symmetry in Hpq. apply app_eq_nil in Hpq as [-> _]. done.
  - apply Forall_cons in Hgaps as [Hgap Hgaps]. cbn in Hgap.
    destruct (pause_then_edit gap e s Ha Hgap) as (Ha' & Hc' & Hn').
    destruct p as [|x [|y p']]; cbn [burst app] in Hpq.
    + done.
    + injection Hpq as <- _. cbn [run foldl].
      by destruct (short_pause gap s Ha Hgap) as (_ & -> & _).
    + injection Hpq as <- <- Hpq.
      change (Elapse gap :: editEvent e :: p')
        with ([Elapse gap; editEvent e] ++ p').
      rewrite run_app. rewrite (IH _ Ha' Hgaps p' q Hpq). done.
Qed.

End Debounce.

Lemma applyEdits_snoc (es : list Edit) (e : Edit) (n : Note) :
  applyEdits (es ++ [e]) n = applyEdit e (applyEdits es n).
Proof. unfold applyEdits. by rewrite foldl_app. Qed.

Lemma saveNote_carries_edit (e : Edit) (n : Note) :
  carries (saveNote (applyEdit e n)) e.
Proof. unfold saveNote. destruct e, n as [[i|] t c]; done. Qed.

Lemma saveNote_carries_last (e1 : Edit) (es : list Edit) (n : Note) :
  carries (saveNote (applyEdits (e1 :: es) n)) (default e1 (last es)).
Proof.
  destruct es as [|e es _] using rev_ind.
  - apply saveNote_carries_edit.
  - rewrite last_snoc. cbn [default].
    change (e1 :: es ++ [e]) with ((e1 :: es) ++ [e]).
    rewrite applyEdits_snoc. apply saveNote_carries_edit.
Qed.

(** ** Sessions whose note is persisted *)

Lemma targets_not_add (i : Id) (w : Write) : targets i w -> isAdd w = false.
Proof. by destruct w. Qed.

(** With no add in flight, whatever happens next keeps the id, and every
    call it makes is an update or delete of that id. *)
Lemma persisted_step (i : Id) (e : Event) (s : EditScreen) :
  persisted i s ->
  persisted i (step e s)
  /\ exists ws, calls (step e s) = calls s ++ ws /\ Forall (targets i) ws.
Proof.
  intros Hp.
  assert (Hsame : persisted i s
    /\ exists ws, calls s = calls s ++ ws /\ Forall (targets i) ws).
  { split; [done|]. exists []. by rewrite app_nil_r. }
  destruct Hsame as [_ Hnil].
  pose proof Hp as (Hid & Htm & Hpend).
  destruct e as [text|text|ms|k result| |]; unfold step.
  - destruct (mounted s) eqn:Hm; [|by split].
    unfold setNote. rewrite Hm. repeat split; cbn; try done.
    intros ? ? [= _ <-]. done.
  - destruct (mounted s) eqn:Hm; [|by split].
    unfold setNote. rewrite Hm. repeat split; cbn; try done.
    intros ? ? [= _ <-]. done.
  - destruct (timeoutId s) as [[remaining n]|] eqn:Ht; [|by split].
    pose proof (Htm _ _ eq_refl) as Hn.
    destruct (ms <? remaining).
    + repeat split; cbn; try done. intros ? ? [= _ <-]. done.
    + unfold saveNote. rewrite Hn. repeat split; cbn; try done.
      * apply Forall_app. split; [done|]. by repeat constructor.
      * eexists. split; [done|]. by repeat constructor.
  - destruct (pending s !! k) as [w|] eqn:Hk; [|by split].
    assert (Hw : isAdd w = false).
    { eapply (Forall_lookup_1 (fun w => isAdd w = false)); eauto. }
    assert (Hdel : Forall (fun w => isAdd w = false) (delete k (pending s))).
    { by apply Forall_delete. }
    destruct w as [? ?|j t c|j]; [done| |]; cbn; repeat split; try done.
  - destruct (mounted s) eqn:Hm; [|by split].
    unfold handleDelete. rewrite Hid. repeat split; cbn; try done.
    + apply Forall_app. split; [done|]. by repeat constructor.
    + eexists. split; [done|]. by repeat constructor.
  - repeat split; cbn; try done.
Qed.

Lemma persisted_run (i : Id) (es : list Event) (s : EditScreen) :
  persisted i s ->
  persisted i (run es s)
  /\ exists ws, calls (run es s) = calls s ++ ws /\ Forall (targets i) ws.
Proof.
  revert s. induction es as [|e es IH]; intros s Hp.
  - split; [done|]. exists []. by rewrite app_nil_r.
  - destruct (persisted_step i e s Hp) as (Hp' & ws & Hc & Hws).
    destruct (IH _ Hp') as (Hp'' & ws' & Hc' & Hws').
    rewrite run_cons. split; [done|].
    exists (ws ++ ws'). rewrite Hc', Hc, <- app_assoc. split; [done|].
    by apply Forall_app.
Qed.

(** An update that settles, with success or with an error, leaves the note
    and the pending timeout as the user's latest edit set them. *)
Lemma update_settles_in_place (k : nat) (result : Result) (s : EditScreen)
      (i : Id) (t c : option string) :
  pending s !! k = Some (UpdateNote i t c) ->
  note (step (Settle k result) s) = note s
  /\ timeoutId (step (Settle k result) s) = timeoutId s
  /\ updateError (step (Settle k result) s)
     = if isLatestCall k (UpdateNote i t c) s then error result
       else updateError s.
Proof.
  intros Hk. unfold step. rewrite Hk. screen_simpl.
  by destruct (isLatestCall _ _ _).
Qed.

(** ** Sessions that have ended *)

Lemma ended_step (e : Event) (s : EditScreen) :
  ended s -> ended (step e s) /\ calls (step e s) = calls s.
Proof.
  intros [Hm Ht]. destruct e as [text|text|ms|k result| |]; unfold step;
    rewrite ?Hm, ?Ht; try done.
  destruct (pending s !! k) as [[t c|i t c|i]|]; try done.
  screen_simpl. rewrite Hm. destruct (data result); by screen_simpl.
Qed.

Lemma ended_run (es : list Event) (s : EditScreen) :
  ended s -> calls (run es s) = calls s.
Proof.
  revert s. induction es as [|e es IH]; intros s He; [done|].
  destruct (ended_step e s He) as [He' Hc]. by rewrite run_cons, IH, Hc.
Qed.

(** Waiting, in several steps, for less than what is left on the timeout. *)
Lemma waiting_silent (ds : list nat) (s : EditScreen) (remaining : nat) (n : Note) :
  timeoutId s = Some (remaining, n) ->
  sum_list ds < remaining ->
  let s' := run (Elapse <$> ds) s in
  calls s' = calls s /\ mounted s' = mounted s /\ note s' = note s
  /\ timeoutId s' = Some (remaining - sum_list ds, n).
Proof.
  revert s remaining. induction ds as [|d ds IH]; intros s remaining Ht Hsum.
  - cbn. rewrite Nat.sub_0_r. done.
  - change (sum_list (d :: ds)) with (d + sum_list ds) in Hsum.
    cbn [fmap list_fmap].
    rewrite run_cons.
    assert (Hstep : step (Elapse d) s = setTimeoutId (Some (remaining - d, n)) s).
    { unfold step. rewrite Ht.
      destruct (Nat.ltb_spec d remaining); [done|lia]. }
    rewrite Hstep.
    destruct (IH (setTimeoutId (Some (remaining - d, n)) s) (remaining - d))
      as (Hc & Hm & Hn & Ht'); [done|lia|].
    cbn zeta in *. rewrite Hc, Hm, Hn, Ht'.
    repeat split. f_equal. f_equal.
    change (sum_list (d :: ds)) with (d + sum_list ds). lia.
Qed.




(** ** What an add does when it settles *)

Lemma add_settles_into_note (s : EditScreen) (k : nat)
      (t c : option string) (result : Result) :
  pending s !! k = Some (AddNote t c) ->
  mounted s = true ->
  let s' := step (Settle k result) s in
  note s' = spread (data result) /\ calls s' = calls s /\ armed s'.
Proof.
  intros Hk Hm s'. subst s'. unfold step, armed. rewrite Hk. screen_simpl.
  rewrite Hm. destruct (data result) as [d|]; screen_simpl; by rewrite ?Hm.
Qed.

(** C10: the add branch reads [result.data] without a check.  Whenever a
    pending add settles, the mounted session's note becomes the spread of
    [result.data]; when the result carries no data that is the empty object,
    whatever title and content the draft held, the timeout is re-armed on it,
    and reading [result.data.title] raises a TypeError.  The add hook shows
    the result's error when this add is the call it follows. *)
Theorem add_failure_replaces_note (s : EditScreen) (k : nat)
        (t c : option string) (result : Result) :
  pending s !! k = Some (AddNote t c) ->
  mounted s = true ->
  let s' := step (Settle k result) s in
  note s' = spread (data result)
  /\ (data result = None ->
      note s' = emptyObject
      /\ title (note s') = None /\ content (note s') = None
      /\ timeoutId s' = Some (debounce, emptyObject)
      /\ uncaught s' = uncaught s ++ [TypeError]
      /\ addError s' = if isLatestCall k (AddNote t c) s then error result
                       else addError s).
Proof.
  intros Hk Hm s'. subst s'. unfold step. rewrite Hk. screen_simpl.
  rewrite Hm. destruct (data result) as [d|]; screen_simpl.
  - split; [done|]. discriminate.
  - by repeat split.
Qed.

Lemma add_failure_replaces_note_witness :
  let s := run [ChangeTitle "A"; Elapse 500] (mount newNote) in
  let s' := step (Settle 0 (rejected "write failed")) s in
  pending s !! 0 = Some (AddNote (Some "A") (Some ""))
  /\ mounted s = true
  /\ note s' = emptyObject
  /\ uncaught s' = [TypeError].
Proof.
  intros s s'.
  assert (Hk : pending s !! 0 = Some (AddNote (Some "A") (Some "")))
    by reflexivity.
  assert (Hm : mounted s = true) by reflexivity.
  split; [exact Hk|]. split; [exact Hm|].
  destruct (add_failure_replaces_note s 0 _ _ (rejected "write failed") Hk Hm)
    as (_ & Hnone).
  destruct (Hnone eq_refl) as (Hn & _ & _ & _ & Hu & _).
  split; [exact Hn | exact Hu].
Defined.

(** A fulfilled add gives the note its id and re-arms the timeout, so one
    update of the stored record follows once the delay has passed. *)
Lemma add_success_rearms (s : EditScreen) (k : nat) (t c : option string)
      (i : Id) (t' c' : string) :
  pending s !! k = Some (AddNote t c) ->
  mounted s = true ->
  let s' := step (Settle k (fulfilled i t' c')) s in
  note s' = mkNote (Some i) (Some t') (Some c')
  /\ calls s' = calls s
  /\ calls (step (Elapse debounce) s')
     = calls s ++ [UpdateNote i (Some t') (Some c')].
Proof.
  intros Hk Hm s'.
  destruct (add_settles_into_note s k t c (fulfilled i t' c') Hk Hm)
    as (Hn & Hc & Ha).
  fold s' in Hn, Hc, Ha. split; [exact Hn|]. split; [exact Hc|].
  rewrite (quiet_fires debounce s' Ha (le_n _)), Hc, Hn. done.
Qed.

(** ** Sessions in which the code departs from the specification *)

(** C2, at a failing input.  The user types "A", the add goes out after the
    delay, and while it is still awaited the user types "AB" and pauses for
    the delay again: the timeout fires on a note that has no id yet, so a
    second add goes out.  The first add then completes with id 1, the second
    with id 2, and the save that follows is an update of id 2. *)
Theorem second_add_while_first_in_flight :
  let s1 := run slowAdd (mount newNote) in
  let s2 := run [Settle 0 (fulfilled 2 "AB" ""); Elapse 500] s1 in
  calls s1 = [AddNote (Some "A") (Some ""); AddNote (Some "AB") (Some "")]
  /\ id (note s1) = Some 1%positive
  /\ calls s2 = calls s1 ++ [UpdateNote 2 (Some "AB") (Some "")]
  /\ id (note s2) = Some 2%positive.
Proof. by repeat split. Qed.

(** C3, at a failing input.  The user types "A", the add goes out, and the
    user types "AB" while it is awaited.  The add completes 100 ms later with
    the record it stored: the note becomes that record, and the next save is
    an update with the title "A".  No call ever carries "AB". *)
Theorem edit_during_add_is_overwritten :
  let typed := run [ChangeTitle "A"; Elapse 500; ChangeTitle "AB"; Elapse 100]
                   (mount newNote) in
  let s := run editDuringAdd (mount newNote) in
  title (note typed) = Some "AB"
  /\ pending typed = [AddNote (Some "A") (Some "")]
  /\ title (note s) = Some "A"
  /\ calls s = [AddNote (Some "A") (Some ""); UpdateNote 1 (Some "A") (Some "")].
Proof. by repeat split. Qed.

(** C5, at a failing input.  The user types "A" and the add is rejected.
    The error is shown, but the note is now the empty object: title and
    content are gone, and the add that the re-armed timeout makes carries
    neither. *)
Theorem rejected_add_drops_draft :
  let s := run addRejected (mount newNote) in
  addError s = Some "write failed"
  /\ note s = emptyObject
  /\ uncaught s = [TypeError]
  /\ calls (step (Elapse 500) s)
     = [AddNote (Some "A") (Some ""); AddNote None None].
Proof. by repeat split. Qed.

(** ** The burst, the quiet period and what follows *)

Lemma edit_pending (e : Edit) (s : EditScreen) :
  pending (step (editEvent e) s) = pending s.
Proof.
  destruct e; unfold editEvent, step; destruct (mounted s) eqn:Hm;
    screen_simpl; by rewrite ?Hm.
Qed.

Lemma burst_pending (rest : list (nat * Edit)) (s : EditScreen) :
  armed s -> Forall (fun ge => ge.1 < debounce) rest ->
  pending (run (burst rest) s) = pending s.
Proof.
  revert s. induction rest as [|[gap e] rest IH]; intros s Ha Hgaps; [done|].
  apply Forall_cons in Hgaps as [Hgap Hgaps]. cbn in Hgap.
  destruct (pause_then_edit gap e s Ha Hgap) as (Ha' & _ & _).
  cbn [burst]. change (Elapse gap :: editEvent e :: burst rest)
    with ([Elapse gap; editEvent e] ++ burst rest).
  rewrite run_app, (IH _ Ha' Hgaps). cbn [run foldl].
  rewrite edit_pending. destruct Ha as [_ Ht]. unfold step. rewrite Ht.
  destruct (Nat.ltb_spec gap debounce); [done|lia].
Qed.

(** With no timeout pending, time passes without effect. *)
Lemma idle_run (ds : list nat) (s : EditScreen) :
  timeoutId s = None -> run (Elapse <$> ds) s = s.
Proof.
  intros Ht. induction ds as [|d ds IH]; [done|].
  cbn [fmap list_fmap]. rewrite run_cons.
  assert (Hstep : step (Elapse d) s = s) by (unfold step; by rewrite Ht).
  by rewrite Hstep.
Qed.

(** Waiting, in several steps, for at least what is left on the timeout:
    it expires once, [saveNote] makes its call, and no timeout is left. *)
Lemma waiting_fires (ds : list nat) (s : EditScreen) (remaining : nat) (n : Note) :
  timeoutId s = Some (remaining, n) ->
  0 < remaining <= sum_list ds ->
  let s' := run (Elapse <$> ds) s in
  calls s' = calls s ++ [saveNote n]
  /\ pending s' = pending s ++ [saveNote n]
  /\ timeoutId s' = None
  /\ mounted s' = mounted s
  /\ note s' = note s.
Proof.
  revert s remaining. induction ds as [|d ds IH]; intros s remaining Ht Hsum.
  - cbn in Hsum. lia.
  - change (sum_list (d :: ds)) with (d + sum_list ds) in Hsum.
    intros s'. subst s'. cbn [fmap list_fmap]. rewrite run_cons.
    destruct (Nat.ltb_spec d remaining) as [Hlt|Hge].
    + assert (Hstep : step (Elapse d) s
                      = setTimeoutId (Some (remaining - d, n)) s).
      { unfold step. rewrite Ht.
        destruct (Nat.ltb_spec d remaining); [done|lia]. }
      rewrite Hstep.
      destruct (IH (setTimeoutId (Some (remaining - d, n)) s) (remaining - d))
        as (Hc & Hp & Ht' & Hm & Hn); [done|lia|].
      cbn zeta in *. by rewrite Hc, Hp, Ht', Hm, Hn.
    + assert (Hstep : step (Elapse d) s
                      = trigger (saveNote n) (setTimeoutId None s)).
      { unfold step. rewrite Ht.
        destruct (Nat.ltb_spec d remaining); [lia|done]. }
      rewrite Hstep. by rewrite idle_run.
Qed.

(** The fields that an update leaves alone when it settles. *)
Lemma settle_update_fields (s : EditScreen) (k : nat) (i : Id)
      (t c : option string) (result : Result) :
  pending s !! k = Some (UpdateNote i t c) ->
  let s' := step (Settle k result) s in
  calls s' = calls s /\ timeoutId s' = timeoutId s /\ note s' = note s.
Proof. intros Hk s'. subst s'. unfold step. by rewrite Hk. Qed.

(** C1, as stated, fails: a burst of two edits on a new note, 100 ms
    apart, costs two writes.  After the quiet 500 ms the add goes out; when
    it is fulfilled, [setNote] arms the timeout again, and an update of the
    stored record follows 500 ms later. *)
Lemma burst_on_draft_costs_two_writes :
  calls (run [ChangeTitle "A"; Elapse 100; ChangeTitle "AB"; Elapse 500;
              Settle 0 (fulfilled 1 "AB" ""); Elapse 500] (mount newNote))
  = [AddNote (Some "AB") (Some ""); UpdateNote 1 (Some "AB") (Some "")].
Proof. reflexivity. Qed.

(** C1, as amended: debounce coalescing.  On a mounted screen, take any
    N >= 1 edits with less than the 500 ms delay between consecutive ones.
    No trigger is called at any point of the burst, nor while the quiet time
    that follows, in however many pieces it passes, adds up to less than the
    delay: every edit clears the pending timeout.  Once the quiet time
    reaches the delay exactly one call has been made, however long the quiet
    lasts: an add when the session's note has no id, an update with that id
    otherwise, with the title and content of the note after all the edits,
    so carrying the text of the last one.  For a note with an id that call
    remains the only one after it has settled.  For a note without id, the
    fulfilled add arms the timeout again, and one update of the stored
    record follows once a further 500 ms have passed. *)
Theorem debounce_coalescing (s : EditScreen) (e1 : Edit) (rest : list (nat * Edit)) :
  mounted s = true ->
  Forall (fun ge => ge.1 < debounce) rest ->
  let trace := editEvent e1 :: burst rest in
  let n' := applyEdits (e1 :: rest.*2) (note s) in
  let w := match id (note s) with
           | Some i => UpdateNote i (title n') (content n')
           | None => AddNote (title n') (content n')
           end in
  let k := length (pending s) in
  (forall p q, trace = p ++ q -> calls (run p s) = calls s)
  /\ (forall quiet, sum_list quiet < debounce ->
        calls (run (trace ++ (Elapse <$> quiet)) s) = calls s)
  /\ (forall quiet, debounce <= sum_list quiet ->
        calls (run (trace ++ (Elapse <$> quiet)) s) = calls s ++ [w])
  /\ carries w (lastEdit e1 rest)
  /\ (forall quiet result more,
        debounce <= sum_list quiet -> is_Some (id (note s)) ->
        calls (run (trace ++ (Elapse <$> quiet)
                          ++ Settle k result :: (Elapse <$> more)) s)
        = calls s ++ [w])
  /\ (forall quiet i t' c' more,
        debounce <= sum_list quiet -> id (note s) = None ->
        calls (run (trace ++ (Elapse <$> quiet)
                          ++ Settle k (fulfilled i t' c') :: (Elapse <$> more)) s)
        = calls s ++ [w] ++ (if decide (debounce <= sum_list more)
                             then [UpdateNote i (Some t') (Some c')]
                             else [])).
Proof.
  intros Hm Hgaps trace n' w k.
  destruct (edit_arms e1 s Hm) as (Ha1 & Hc1 & Hn1).
  destruct (burst_run rest _ Ha1 Hgaps) as (Ha & Hc & Hn).
  pose proof (burst_pending rest _ Ha1 Hgaps) as Hp.
  rewrite edit_pending in Hp.
  assert (Hw : w = saveNote n').
  { unfold w, saveNote. subst n'. by rewrite id_applyEdits. }
  assert (Hnote : note (run trace s) = n').
  { subst trace n'. rewrite run_cons, Hn, Hn1. done. }
  assert (Hcalls : calls (run trace s) = calls s).
  { subst trace. rewrite run_cons, Hc, Hc1. done. }
  assert (Hpend : pending (run trace s) = pending s).
  { subst trace. by rewrite run_cons. }
  assert (Harmed : armed (run trace s)) by (subst trace; by rewrite run_cons).
  destruct Harmed as [Hmt Htt]. rewrite Hnote in Htt.
  assert (Hpos : forall quiet, debounce <= sum_list quiet ->
                               0 < debounce <= sum_list quiet).
  { intros quiet. unfold debounce. lia. }
  assert (Hfired : forall quiet, debounce <= sum_list quiet ->
            let sf := run (trace ++ (Elapse <$> quiet)) s in
            calls sf = calls s ++ [w] /\ pending sf !! k = Some w
            /\ timeoutId sf = None /\ mounted sf = true).
  { intros quiet Hq sf. subst sf. rewrite run_app.
    destruct (waiting_fires quiet _ _ _ Htt (Hpos _ Hq))
      as (Hcf & Hpf & Htf & Hmf & _).
    cbn zeta in *. rewrite Hcf, Hpf, Htf, Hmf, Hcalls, Hpend, <- Hw.
    repeat split; try done. unfold k. by apply list_lookup_middle. }
  split; [|split; [|split; [|split; [|split]]]].
  - intros p q Hpq. destruct p as [|x p]; [done|].
    subst trace. cbn [app] in Hpq. injection Hpq as <- Hpq.
    rewrite run_cons, (burst_prefix_silent rest _ Ha1 Hgaps p q Hpq). done.
  - intros quiet Hq. rewrite run_app.
    by destruct (waiting_silent quiet _ _ _ Htt Hq) as (-> & _).
  - intros quiet Hq. by destruct (Hfired quiet Hq) as (-> & _).
  - rewrite Hw. subst n'. apply saveNote_carries_last.
  - intros quiet result more Hq [i Hi].
    destruct (Hfired quiet Hq) as (Hcf & Hkf & Htf & _).
    rewrite app_assoc, run_app, run_cons.
    assert (Hwi : w = UpdateNote i (title n') (content n')) by (unfold w; by rewrite Hi).
    rewrite Hwi in Hkf.
    destruct (settle_update_fields _ k i _ _ result Hkf) as (Hcs & Hts & _).
    rewrite idle_run; [|by rewrite Hts]. by rewrite Hcs.
  - intros quiet i t' c' more Hq Hi.
    destruct (Hfired quiet Hq) as (Hcf & Hkf & _ & Hmf).
    rewrite app_assoc, run_app, run_cons.
    assert (Hwa : w = AddNote (title n') (content n')) by (unfold w; by rewrite Hi).
    rewrite Hwa in Hkf.
    destruct (add_settles_into_note _ k _ _ (fulfilled i t' c') Hkf Hmf)
      as (Hns & Hcs & [_ Hts]).
    rewrite Hns in Hts. cbn [fulfilled data spread] in Hts.
    case_decide as Hmore.
    + destruct (waiting_fires more _ _ _ Hts (Hpos _ Hmore)) as (Hcm & _).
      cbn zeta in Hcm. by rewrite Hcm, Hcs, Hcf, <- app_assoc.
    + destruct (waiting_silent more _ _ _ Hts) as (Hcm & _); [lia|].
      cbn zeta in Hcm. by rewrite Hcm, Hcs, Hcf.
Qed.

Lemma debounce_coalescing_witness :
  let s := mount newNote in
  let rest := [(100, EditContent "x"); (499, EditTitle "AB")] in
  let trace := editEvent (EditTitle "A") :: burst rest in
  mounted s = true
  /\ Forall (fun ge : nat * Edit => ge.1 < debounce) rest
  /\ debounce <= sum_list [200; 300]
  /\ id (note s) = None
  /\ calls (run (trace ++ (Elapse <$> [200; 300])) s)
     = [AddNote (Some "AB") (Some "x")]
  /\ calls (run (trace ++ (Elapse <$> [200; 300])
                       ++ Settle 0 (fulfilled 1 "AB" "x")
                          :: (Elapse <$> [200; 300])) s)
     = [AddNote (Some "AB") (Some "x"); UpdateNote 1 (Some "AB") (Some "x")].
Proof.
  intros s rest trace.
  assert (Hm : mounted s = true) by reflexivity.
  assert (Hgaps : Forall (fun ge : nat * Edit => ge.1 < debounce) rest).
  { unfold rest, debounce. repeat constructor; cbn; lia. }
  assert (Hq : debounce <= sum_list [200; 300]) by (cbn; unfold debounce; lia).
  assert (Hid : id (note s) = None) by reflexivity.
  split; [exact Hm|]. split; [exact Hgaps|]. split; [exact Hq|].
  split; [exact Hid|].
  destruct (debounce_coalescing s (EditTitle "A") rest Hm Hgaps)
    as (_ & _ & Hfire & _ & _ & Hadd).
  split; [exact (Hfire [200; 300] Hq)|].
  exact (Hadd [200; 300] 1%positive "AB" "x" [200; 300] Hq Hid).
Defined.

(** * Properties of the store *)

Section Matching.

Import Db.

Lemma startsWith_spec (p s : string) :
  startsWith p s = true <-> exists suf, s = p +:+ suf.
Proof.
  revert s. induction p as [|a p IH]; intros s; cbn.
  - split; [|done]. intros _. by exists s.
  - destruct s as [|b s].
    + split; [done|]. by intros [suf ?].
    + rewrite andb_true_iff, Ascii.eqb_eq, IH. split.
      * intros [-> [suf ->]]. by exists suf.
      * intros [suf [= -> ->]]. split; [done|]. by exists suf.
Qed.

Lemma includes_spec (q s : string) :
  includes q s = true <-> Substring q s.
Proof.
  unfold Substring. induction s as [|b s IH]; cbn [includes].
  - rewrite orb_false_r, startsWith_spec. split.
    + intros [suf ->]. by exists "", suf.
    + intros (pre & suf & Heq). destruct pre; [|done]. by exists suf.
  - rewrite orb_true_iff, startsWith_spec, IH. split.
    + intros [[suf ->] | (pre & suf & ->)].
      * by exists "", suf.
      * by exists (String b pre), suf.
    + intros (pre & suf & Heq). destruct pre as [|b' pre].
      * left. by exists suf.
      * right. injection Heq as _ ->. by exists pre, suf.
Qed.

Lemma includes_empty (s : string) : includes "" s = true.
Proof. by destruct s. Qed.

Lemma matches_spec (q : string) (n : Note) :
  matches q n = true <-> ContainsCI q (title n) \/ ContainsCI q (content n).
Proof.
  unfold matches, ContainsCI. by rewrite orb_true_iff, !includes_spec.
Qed.

Lemma search_filter (q : string) (notes : list Note) :
  search q notes = filter (fun n => matches q n = true) notes.
Proof.
  induction notes as [|n notes IH]; [done|]. cbn [search].
  rewrite filter_cons, IH. destruct (matches q n); by case_decide.
Qed.

Lemma search_sublist (q : string) (notes : list Note) :
  search q notes `sublist_of` notes.
Proof. rewrite search_filter. apply sublist_filter. Qed.

(** C6: for every query and every list of stored notes, [search] returns
    exactly the stored notes whose title or content contains the query as
    a case-insensitive substring, in the order they are stored and without
    repeating any; the empty query returns them all; and the home screen
    hands that result to its grid as it is. *)
Theorem search_exact (q : string) (notes : list Note) :
  (forall n, n ∈ search q notes <->
             n ∈ notes /\ (ContainsCI q (title n) \/ ContainsCI q (content n)))
  /\ search q notes `sublist_of` notes
  /\ search "" notes = notes
  /\ (forall s,
        HomeScreen (useSearchNotesQuery q s) = NotesGrid (search q (index s))).
Proof.
  split; [|split; [|split]].
  - intros n. rewrite search_filter, list_elem_of_filter, matches_spec. tauto.
  - apply search_sublist.
  - induction notes as [|n notes IH]; [done|]. cbn [search].
    unfold matches. cbn [toLowerCase]. rewrite includes_empty. cbn.
    by rewrite IH.
  - done.
Qed.

End Matching.

Section Mutations.

Import Db.



Lemma without_unknown (i : Id) (notes : list Note) :
  ~ known i (without i notes).
Proof.
  unfold known, without. rewrite list_elem_of_fmap.
  intros (n & -> & Hn). apply list_elem_of_filter in Hn as [Hne _]. done.
Qed.



(** C8: [remove] is idempotent.  When a call of [remove i] has succeeded,
    calling it again, whether or not the backend would fail a write,
    reports no error and returns the very same store: index, backend and
    subscriptions untouched.  Removing an id that the index does not hold
    is a no-op that reports no error, and the editor's [handleDelete] on a
    note without id calls no trigger at all and leaves the screen. *)
Theorem remove_idempotent (s : Store) (i : Id) (fault1 fault2 : bool) :
  ((remove fault1 i s).2 = Ok () ->
   remove fault2 i (remove fault1 i s).1 = ((remove fault1 i s).1, Ok ()))
  /\ (~ known i (index s) -> remove fault1 i s = (s, Ok ()))
  /\ (forall scr, mounted scr = true -> unsaved scr ->
        calls (step PressDelete scr) = calls scr
        /\ ended (step PressDelete scr)).
Proof.
  split; [|split].
  - unfold remove at 1 3 4. destruct (decide (known i (index s))) as [Hk|Hk].
    + destruct fault1; [done|]. intros _. cbn [fst snd].
      unfold remove, notifyMutation. cbn [index].
      destruct (decide _) as [Hk'|_]; [|done].
      by apply without_unknown in Hk'.
    + intros _. cbn [fst]. unfold remove. by destruct (decide _).
  - intros Hk. unfold remove. by destruct (decide _).
  - intros scr Hm Hid. unfold step, handleDelete. rewrite Hm, Hid. done.
Qed.

Lemma remove_idempotent_witness :
  let s := runOps [Add false "A" "x"; Add false "B" "y"; Subscribe ""] empty in
  (remove false 1 s).2 = Ok ()
  /\ remove true 1 (remove false 1 s).1 = ((remove false 1 s).1, Ok ())
  /\ index (remove false 1 s).1 = [mkNote 2 "B" "y"].
Proof.
  intros s.
  assert (H1 : (remove false 1 s).2 = Ok ()) by reflexivity.
  split; [exact H1|]. split; [|reflexivity].
  exact (proj1 (remove_idempotent s 1 false true) H1).
Defined.

(** *** Insertion order *)








End Mutations.

(** * Further properties of the editor *)

Section Timeouts.

(** An unmounted screen with the invariant has no timeout. *)
Lemma fresh_unmounted (s : EditScreen) :
  fresh s -> mounted s = false -> timeoutId s = None.
Proof.
  unfold fresh. intros Hf Hm.
  destruct (timeoutId s) as [[remaining n]|]; [|done].
  destruct Hf as (Hm' & _). congruence.
Qed.

Lemma fresh_step (e : Event) (s : EditScreen) : fresh s -> fresh (step e s).
Proof.
  intros Hf. pose proof (fresh_unmounted s Hf) as Hun. revert Hf.
  unfold fresh.
  destruct e as [text|text|ms|k result| |]; unfold step.
  - destruct (mounted s) eqn:Hm; [|by rewrite Hun]. intros _. screen_simpl.
    rewrite Hm. cbn. unfold debounce. repeat split; lia.
  - destruct (mounted s) eqn:Hm; [|by rewrite Hun]. intros _. screen_simpl.
    rewrite Hm. cbn. unfold debounce. repeat split; lia.
  - destruct (timeoutId s) as [[remaining n]|] eqn:Ht; [|by rewrite Ht].
    intros (Hm & Hn & Hr).
    destruct (Nat.ltb_spec ms remaining); screen_simpl; [|done].
    repeat split; try done; lia.
  - destruct (pending s !! k) as [[t c|i t c|i]|]; [| | |done].
    + screen_simpl. destruct (mounted s) eqn:Hm.
      * intros _.
        destruct (data result); screen_simpl; cbn;
          unfold debounce; repeat split; lia.
      * intros _. destruct (data result); screen_simpl; by rewrite Hun.
    + by screen_simpl.
    + intros _. by screen_simpl.
  - destruct (mounted s) eqn:Hm; [|by rewrite Hun]. intros Hf. screen_simpl.
    destruct (id (note s)); screen_simpl; [|done]. by rewrite Hm.
  - intros _. by screen_simpl.
Qed.

Lemma fresh_mount (n : Note) : fresh (mount n).
Proof. unfold fresh. cbn. unfold debounce. repeat split; lia. Qed.

Lemma fresh_run (es : list Event) (s : EditScreen) : fresh s -> fresh (run es s).
Proof.
  revert s. induction es as [|e es IH]; intros s Hf; [done|].
  rewrite run_cons. by apply IH, fresh_step.
Qed.

(** X1: the timeout never saves a stale note.  In every state that a
    session reaches from the opening of the screen, a pending timeout
    belongs to a mounted screen and captured the note the screen holds now;
    so whenever the passing of time makes a call, that call is [saveNote] of
    the note as it stands, and a screen that was left makes none. *)
Theorem timeout_saves_current_note (n : Note) (es : list Event) (d : nat) :
  let s := run es (mount n) in
  fresh s
  /\ (calls (step (Elapse d) s) = calls s
      \/ (mounted s = true
          /\ calls (step (Elapse d) s) = calls s ++ [saveNote (note s)])).
Proof.
  intros s. assert (Hf : fresh s) by apply fresh_run, fresh_mount.
  split; [exact Hf|]. unfold fresh in Hf. unfold step.
  destruct (timeoutId s) as [[remaining n']|]; [|by left].
  destruct Hf as (Hm & -> & _).
  destruct (Nat.ltb_spec d remaining); [by left|]. right. done.
Qed.

Lemma saves_snoc (ws : list Write) (w : Write) :
  saves (ws ++ [w]) = saves ws + (if isSave w then 1 else 0).
Proof.
  unfold saves. rewrite List.filter_app, length_app. cbn.
  by destruct (isSave w).
Qed.

Lemma isSave_saveNote (n : Note) : isSave (saveNote n) = true.
Proof. unfold saveNote. by destruct (id n). Qed.

Lemma accounted_step (e : Event) (s : EditScreen) :
  fresh s -> accounted (step e s) <= accounted s + elapsedOf e.
Proof.
  unfold fresh, accounted, waited. intros Hf.
  assert (Hsame : debounce * saves (calls s) +
                  match timeoutId s with
                  | Some (remaining, _) => debounce - remaining
                  | None => 0
                  end <= debounce * saves (calls s) +
                  match timeoutId s with
                  | Some (remaining, _) => debounce - remaining
                  | None => 0
                  end + elapsedOf e) by lia.
  assert (Hreset : debounce * saves (calls s) + (debounce - debounce)
                   <= debounce * saves (calls s) +
                      match timeoutId s with
                      | Some (remaining, _) => debounce - remaining
                      | None => 0
                      end + elapsedOf e) by lia.
  assert (Hclear : debounce * saves (calls s) + 0
                   <= debounce * saves (calls s) +
                      match timeoutId s with
                      | Some (remaining, _) => debounce - remaining
                      | None => 0
                      end + elapsedOf e) by lia.
  destruct e as [text|text|ms|k result| |]; unfold step.
  - destruct (mounted s) eqn:Hm; [|exact Hsame]. screen_simpl. rewrite Hm.
    exact Hreset.
  - destruct (mounted s) eqn:Hm; [|exact Hsame]. screen_simpl. rewrite Hm.
    exact Hreset.
  - clear Hsame Hreset Hclear. unfold elapsedOf.
    destruct (timeoutId s) as [[remaining n]|] eqn:Ht; [|rewrite Ht; lia].
    destruct Hf as (Hm & Hn & Hr).
    destruct (Nat.ltb_spec ms remaining); screen_simpl; [lia|].
    rewrite saves_snoc, isSave_saveNote. unfold debounce in *. lia.
  - destruct (pending s !! k) as [[t c|i t c|i]|]; screen_simpl;
      [|exact Hsame|exact Hclear|exact Hsame].
    destruct (mounted s) eqn:Hm; destruct (data result); screen_simpl;
      rewrite ?Hm; screen_simpl; first [exact Hreset | exact Hsame].
  - destruct (mounted s) eqn:Hm; [|exact Hsame]. screen_simpl.
    destruct (id (note s)); screen_simpl; [|exact Hclear].
    rewrite saves_snoc. cbn [isSave]. rewrite Nat.add_0_r. exact Hsame.
  - screen_simpl. exact Hclear.
Qed.

Lemma accounted_run (es : list Event) (s : EditScreen) :
  fresh s -> accounted (run es s) <= accounted s + elapsed es.
Proof.
  revert s. induction es as [|e es IH]; intros s Hf.
  - cbn. lia.
  - rewrite run_cons. pose proof (IH _ (fresh_step e s Hf)) as H1.
    pose proof (accounted_step e s Hf) as H2.
    change (elapsed (e :: es)) with (elapsedOf e + elapsed es). lia.
Qed.

(** X2: saves are at least 500 ms apart.  In any session, whatever the
    user and the backend do, the calls made by [saveNote] need 500 ms of
    elapsed time each: after [T] ms at most [T / 500] adds and updates have
    been called. *)
Theorem save_rate_bounded (n : Note) (es : list Event) :
  debounce * saves (calls (run es (mount n))) <= elapsed es.
Proof.
  pose proof (accounted_run es (mount n) (fresh_mount n)) as H.
  unfold accounted in H. change (saves (calls (mount n))) with 0 in H.
  change (waited (mount n)) with (debounce - debounce) in H. lia.
Qed.

End Timeouts.

Section ExistingNotes.

(** In a persisted session nothing escapes and the header keeps showing
    the title. *)
Lemma persisted_step_quiet (i : Id) (e : Event) (s : EditScreen) :
  persisted i s -> headerFollowsTitle s ->
  headerFollowsTitle (step e s) /\ uncaught (step e s) = uncaught s.
Proof.
  unfold headerFollowsTitle. intros (Hid & Htm & Hpend) Hh.
  destruct e as [text|text|ms|k result| |]; unfold step.
  - destruct (mounted s) eqn:Hm; [|done]. screen_simpl. rewrite Hm. cbn.
    split; [|done]. case_decide as Ht; [|done].
    rewrite Hh. unfold titleOrDefault. cbn. by rewrite <- Ht.
  - destruct (mounted s) eqn:Hm; [|done]. screen_simpl. rewrite Hm. cbn.
    split; [|done]. case_decide; [|done]. done.
  - destruct (timeoutId s) as [[remaining n]|]; [|done].
    destruct (ms <? remaining); by screen_simpl.
  - destruct (pending s !! k) as [w|] eqn:Hk; [|done].
    assert (Hw : isAdd w = false).
    { eapply (Forall_lookup_1 (fun w => isAdd w = false)); eauto. }
    destruct w as [? ?|j t c|j]; [done| |]; by screen_simpl.
  - destruct (mounted s) eqn:Hm; [|done]. screen_simpl.
    rewrite Hid. by screen_simpl.
  - by screen_simpl.
Qed.

Lemma persisted_run_quiet (i : Id) (es : list Event) (s : EditScreen) :
  persisted i s -> headerFollowsTitle s ->
  headerFollowsTitle (run es s) /\ uncaught (run es s) = uncaught s.
Proof.
  revert s. induction es as [|e es IH]; intros s Hp Hh; [done|].
  destruct (persisted_step i e s Hp) as [Hp' _].
  destruct (persisted_step_quiet i e s Hp Hh) as [Hh' Hu].
  destruct (IH _ Hp' Hh') as [Hh'' Hu'].
  rewrite run_cons. split; [done|]. by rewrite Hu'.
Qed.

(** X3: editing an existing note never creates a note.  When the screen is
    opened on an item of the grid, then whatever the user and the backend do
    afterwards, every call made is an update or a delete of that item's id,
    the note keeps that id, no exception escapes, and the header shows the
    current title, or 'New Note' when it is empty. *)
Theorem existing_note_session (item : Db.Note) (es : list Event) :
  let s := run es (mount (itemNote item)) in
  Forall (targets (Db.id item)) (calls s)
  /\ Forall (fun w => isAdd w = false) (calls s)
  /\ id (note s) = Some (Db.id item)
  /\ uncaught s = []
  /\ headerTitle s = Some (titleOrDefault (note s)).
Proof.
  intros s.
  assert (Hp : persisted (Db.id item) (mount (itemNote item))).
  { split; [done|]. split; [|by constructor]. cbn. by intros ? ? [= _ <-]. }
  assert (Hh : headerFollowsTitle (mount (itemNote item))) by done.
  destruct (persisted_run _ es _ Hp) as ((Hid & _) & ws & Hc & Hws).
  destruct (persisted_run_quiet _ es _ Hp Hh) as [Hh' Hu].
  fold s in Hid, Hc, Hh', Hu. cbn in Hc. rewrite Hc.
  split; [done|]. split; [|done].
  eapply Forall_impl; [exact Hws|]. apply targets_not_add.
Qed.

End ExistingNotes.

Section Leaving.

(** X4: an edit is lost when the user leaves within the delay.  After an
    edit of a mounted screen, if less than 500 ms pass before the user
    navigates away, the cleanup clears the timeout: no call is made for that
    edit, then or at any later time, although the note state held it. *)
Theorem edit_lost_on_early_leave (s : EditScreen) (e : Edit) (ds : list nat)
        (later : list Event) :
  mounted s = true ->
  sum_list ds < debounce ->
  let gone := run (editEvent e :: (Elapse <$> ds) ++ [NavigateAway]) s in
  note gone = applyEdit e (note s)
  /\ calls gone = calls s
  /\ calls (run later gone) = calls s.
Proof.
  intros Hm Hsum gone.
  destruct (edit_arms e s Hm) as ((_ & Ht) & Hc & Hn).
  destruct (waiting_silent ds _ _ _ Ht Hsum) as (Hc' & _ & Hn' & _).
  assert (Hleft : gone = goBack (run (Elapse <$> ds) (step (editEvent e) s))).
  { unfold gone. by rewrite run_cons, run_app. }
  assert (Hcalls : calls gone = calls s).
  { rewrite Hleft. screen_simpl. by rewrite Hc', Hc. }
  split; [|split; [done|]].
  - rewrite Hleft. screen_simpl. by rewrite Hn', Hn.
  - rewrite ended_run; [done|]. rewrite Hleft. done.
Qed.

Lemma edit_lost_on_early_leave_witness :
  let s := mount newNote in
  mounted s = true
  /\ sum_list [300; 199] < debounce
  /\ calls (run [Elapse 1000; Elapse 1000]
              (run (editEvent (EditTitle "groceries")
                    :: (Elapse <$> [300; 199]) ++ [NavigateAway]) s)) = [].
Proof.
  intros s.
  assert (Hm : mounted s = true) by reflexivity.
  assert (Hsum : sum_list [300; 199] < debounce)
    by (cbn; unfold debounce; lia).
  split; [exact Hm|]. split; [exact Hsum|].
  exact (proj2 (proj2 (edit_lost_on_early_leave
                         s (EditTitle "groceries") [300; 199]
                         [Elapse 1000; Elapse 1000] Hm Hsum))).
Defined.

(** X5: the delete button.  On a note with an id, [handleDelete] makes one
    delete call and the screen stays open, its timeout untouched, until the
    call settles.  When it settles, fulfilled or rejected, the screen is
    left and nothing is ever called again.  But when the timeout expires
    while the delete is still awaited, [saveNote] runs all the same and
    calls an update of the note that is being deleted. *)
Theorem delete_button (s : EditScreen) (i : Id) :
  mounted s = true ->
  id (note s) = Some i ->
  let s1 := step PressDelete s in
  let k := length (pending s) in
  calls s1 = calls s ++ [DeleteNote i]
  /\ pending s1 !! k = Some (DeleteNote i)
  /\ mounted s1 = true /\ timeoutId s1 = timeoutId s /\ note s1 = note s
  /\ (forall result later,
        let s2 := step (Settle k result) s1 in
        ended s2 /\ deleteError s2 = error result
        /\ calls (run later s2) = calls s1)
  /\ (forall remaining d,
        timeoutId s = Some (remaining, note s) -> remaining <= d ->
        calls (step (Elapse d) s1)
        = calls s ++ [DeleteNote i;
                      UpdateNote i (title (note s)) (content (note s))]).
Proof.
  intros Hm Hid s1 k.
  assert (Hs1 : s1 = trigger (DeleteNote i) s).
  { unfold s1, step, handleDelete. by rewrite Hm, Hid. }
  assert (Hk : pending s1 !! k = Some (DeleteNote i)).
  { rewrite Hs1. screen_simpl. unfold k. apply list_lookup_middle. done. }
  assert (Hlat : isLatestCall k (DeleteNote i) s1 = true).
  { rewrite Hs1. apply isLatestCall_trigger. }
  rewrite Hs1 in *. screen_simpl.
  split; [done|]. split; [done|]. split; [done|]. split; [done|].
  split; [done|]. split.
  - intros result later.
    set (s2 := step (Settle k result) _).
    assert (Hs2 : ended s2 /\ deleteError s2 = error result
                  /\ calls s2 = calls s ++ [DeleteNote i]).
    { unfold s2, step. screen_simpl. rewrite Hk, Hlat. by screen_simpl. }
    destruct Hs2 as (He & Hd & Hc). split; [done|]. split; [done|].
    by rewrite ended_run.
  - intros remaining d Ht Hd. unfold step. screen_simpl. rewrite Ht.
    destruct (Nat.ltb_spec d remaining); [lia|]. screen_simpl.
    unfold saveNote. rewrite Hid. by rewrite <- app_assoc.
Qed.

Lemma delete_button_witness :
  let s := run [ChangeContent "milk"; Elapse 200]
               (mount (mkNote (Some 7%positive) (Some "list") (Some ""))) in
  mounted s = true
  /\ id (note s) = Some 7%positive
  /\ timeoutId s = Some (300, note s)
  /\ calls (run [PressDelete; Elapse 300] s)
     = [DeleteNote 7; UpdateNote 7 (Some "list") (Some "milk")].
Proof.
  intros s.
  assert (Hm : mounted s = true) by reflexivity.
  assert (Hid : id (note s) = Some 7%positive) by reflexivity.
  assert (Ht : timeoutId s = Some (300, note s)) by reflexivity.
  split; [exact Hm|]. split; [exact Hid|]. split; [exact Ht|].
  destruct (delete_button s 7 Hm Hid) as (_ & _ & _ & _ & _ & _ & Hfire).
  exact (Hfire 300 300 Ht (le_n _)).
Defined.

End Leaving.

Section Header.

Lemma header_step (e : Event) (s : EditScreen) :
  isSettle e = false -> headerFollowsTitle s -> headerFollowsTitle (step e s).
Proof.
  unfold headerFollowsTitle. intros He Hh.
  destruct e as [text|text|ms|k result| |]; [| | |done| |]; unfold step.
  - destruct (mounted s) eqn:Hm; [|done]. screen_simpl. rewrite Hm. cbn.
    case_decide as Ht; [|done].
    rewrite Hh. unfold titleOrDefault. cbn. by rewrite <- Ht.
  - destruct (mounted s) eqn:Hm; [|done]. screen_simpl. rewrite Hm. cbn.
    by case_decide.
  - destruct (timeoutId s) as [[remaining n]|]; [|done].
    destruct (ms <? remaining); by screen_simpl.
  - destruct (mounted s) eqn:Hm; [|done]. screen_simpl.
    destruct (id (note s)); by screen_simpl.
  - by screen_simpl.
Qed.

(** X6: the header title.  As long as no call has settled, the header shows
    [note.title || 'New Note'] after every event.  When an add is fulfilled
    with the title the note already has, the header is set to that title as
    it is: for an untitled draft it becomes the empty string, although
    [note.title || 'New Note'] is still 'New Note'. *)
Theorem header_title (n : Note) (es : list Event) :
  Forall (fun e => isSettle e = false) es ->
  let s := run es (mount n) in
  headerTitle s = Some (titleOrDefault (note s))
  /\ (forall k t c i t' c',
        mounted s = true ->
        pending s !! k = Some (AddNote t c) ->
        title (note s) = Some t' ->
        let s' := step (Settle k (fulfilled i t' c')) s in
        headerTitle s' = Some t'
        /\ (t' = "" -> titleOrDefault (note s') = "New Note")).
Proof.
  intros Hes s. split.
  - subst s. generalize (eq_refl : headerFollowsTitle (mount n)).
    generalize (mount n). induction Hes as [|e es He _ IH]; intros s Hh.
    + exact Hh.
    + rewrite run_cons. apply IH. by apply header_step.
  - clearbody s. intros k t c i t' c' Hm Hk Ht s'. subst s'.
    unfold step. rewrite Hk. unfold fulfilled. screen_simpl.
    rewrite Hm. screen_simpl. rewrite ?Hm.
    cbn. rewrite Ht. split; [by case_decide|]. by intros ->.
Qed.

Lemma header_title_witness :
  let s := run [ChangeContent "milk"; Elapse 500] (mount newNote) in
  let s' := step (Settle 0 (fulfilled 1 "" "milk")) s in
  Forall (fun e => isSettle e = false) [ChangeContent "milk"; Elapse 500]
  /\ mounted s = true
  /\ pending s !! 0 = Some (AddNote (Some "") (Some "milk"))
  /\ title (note s) = Some ""
  /\ headerTitle s = Some "New Note"
  /\ headerTitle s' = Some "".
Proof.
  intros s s'.
  assert (Hes : Forall (fun e => isSettle e = false)
                       [ChangeContent "milk"; Elapse 500])
    by (repeat constructor).
  assert (Hm : mounted s = true) by reflexivity.
  assert (Hk : pending s !! 0 = Some (AddNote (Some "") (Some "milk")))
    by reflexivity.
  assert (Ht : title (note s) = Some "") by reflexivity.
  split; [exact Hes|]. split; [exact Hm|]. split; [exact Hk|].
  split; [exact Ht|].
  destruct (header_title newNote _ Hes) as [Hh Hadd].
  split; [exact Hh|].
  exact (proj1 (Hadd 0 _ _ 1%positive "" "milk" Hm Hk Ht)).
Defined.

End Header.

Section AfterTheAdd.

(** The fields of a mounted screen after a pending add has settled. *)
Lemma settle_add_fields (s : EditScreen) (k : nat) (t c : option string)
      (result : Result) :
  pending s !! k = Some (AddNote t c) ->
  mounted s = true ->
  let s' := step (Settle k result) s in
  mounted s' = true
  /\ note s' = spread (data result)
  /\ timeoutId s' = Some (debounce, spread (data result))
  /\ pending s' = delete k (pending s)
  /\ calls s' = calls s
  /\ uncaught s' = uncaught s ++ match data result with
                                | Some _ => []
                                | None => [TypeError]
                                end.
Proof.
  intros Hk Hm s'. subst s'. unfold step. rewrite Hk. screen_simpl.
  rewrite Hm. destruct (data result); screen_simpl; rewrite ?Hm;
    by rewrite ?app_nil_r.
Qed.

(** The fields of a screen after its timeout has expired. *)
Lemma fire_fields (s : EditScreen) (remaining : nat) (n : Note) (d : nat) :
  timeoutId s = Some (remaining, n) ->
  remaining <= d ->
  let s' := step (Elapse d) s in
  mounted s' = mounted s
  /\ note s' = note s
  /\ timeoutId s' = None
  /\ pending s' = pending s ++ [saveNote n]
  /\ calls s' = calls s ++ [saveNote n]
  /\ uncaught s' = uncaught s
  /\ addError s' = (if isAdd (saveNote n) then None else addError s)
  /\ isLatestCall (length (pending s)) (saveNote n) s' = true.
Proof.
  intros Ht Hd s'. subst s'. unfold step. rewrite Ht.
  destruct (Nat.ltb_spec d remaining); [lia|].
  repeat split; try by screen_simpl.
  apply (isLatestCall_trigger (saveNote n) (setTimeoutId None s)).
Qed.

Lemma rejectRound_run (s : EditScreen) (t c : option string) (msg : string) :
  mounted s = true -> pending s = [AddNote t c] ->
  let s' := run (rejectRound msg) s in
  mounted s' = true
  /\ pending s' = [AddNote None None]
  /\ calls s' = calls s ++ [AddNote None None]
  /\ uncaught s' = uncaught s ++ [TypeError]
  /\ addError s' = None
  /\ note s' = emptyObject.
Proof.
  intros Hm Hp s'. subst s'. unfold rejectRound.
  assert (Hk : pending s !! 0 = Some (AddNote t c)) by (by rewrite Hp).
  destruct (settle_add_fields s 0 t c (rejected msg) Hk Hm)
    as (Hm1 & Hn1 & Ht1 & Hp1 & Hc1 & Hu1).
  destruct (fire_fields _ _ _ debounce Ht1 (le_n _))
    as (Hm2 & Hn2 & _ & Hp2 & Hc2 & Hu2 & He2 & _).
  rewrite run_cons. change (run [Elapse debounce] ?x) with (step (Elapse debounce) x).
  rewrite Hm2, Hp2, Hc2, Hu2, Hn2, He2, Hm1, Hp1, Hc1, Hu1, Hn1, Hp.
  by repeat split.
Qed.

(** X7: a rejected add is retried for ever, and empty.  With one add
    awaited on a mounted screen, every time the backend rejects it the note
    is the empty object and the timeout is armed again, so after each
    further delay another add goes out with neither title nor content, and
    another TypeError escapes: [n] rejections make [n] such calls. *)
Theorem rejected_add_retried (s : EditScreen) (t c : option string)
        (msgs : list string) :
  mounted s = true ->
  pending s = [AddNote t c] ->
  let s' := run (concat (rejectRound <$> msgs)) s in
  calls s' = calls s ++ replicate (length msgs) (AddNote None None)
  /\ uncaught s' = uncaught s ++ replicate (length msgs) TypeError
  /\ (msgs <> [] -> note s' = emptyObject).
Proof.
  revert s t c. induction msgs as [|msg msgs IH]; intros s t c Hm Hp s';
    subst s'.
  - cbn. by rewrite !app_nil_r.
  - destruct (rejectRound_run s t c msg Hm Hp) as (Hm' & Hp' & Hc & Hu & _ & Hn).
    destruct (IH _ _ _ Hm' Hp') as (Hc' & Hu' & Hn').
    cbn [fmap list_fmap concat length replicate].
    rewrite run_app. cbn zeta in Hc', Hu', Hn'.
    rewrite Hc', Hu', Hc, Hu, <- !app_assoc. split; [done|]. split; [done|].
    intros _. destruct msgs as [|msg' msgs]; [exact Hn|]. by apply Hn'.
Qed.

Lemma rejected_add_retried_witness :
  let s := run [ChangeTitle "A"; Elapse 500] (mount newNote) in
  mounted s = true
  /\ pending s = [AddNote (Some "A") (Some "")]
  /\ calls (run (concat (rejectRound <$> ["e1"; "e2"; "e3"])) s)
     = [AddNote (Some "A") (Some ""); AddNote None None; AddNote None None;
        AddNote None None].
Proof.
  intros s.
  assert (Hm : mounted s = true) by reflexivity.
  assert (Hp : pending s = [AddNote (Some "A") (Some "")]) by reflexivity.
  split; [exact Hm|]. split; [exact Hp|].
  exact (proj1 (rejected_add_retried s _ _ ["e1"; "e2"; "e3"] Hm Hp)).
Defined.

(** X8: after a fulfilled add, one update and then silence.  With one add
    awaited on a mounted screen and no edit in between, the fulfilled add
    makes the note the stored record; after the delay one update of that
    record is called; and when that update settles, fulfilled or rejected,
    nothing is pending, no timeout is armed, and no time that passes makes
    another call: a rejected update is not retried. *)
Theorem fulfilled_add_then_one_update (s : EditScreen) (t c : option string)
        (i : Id) (t' c' : string) (result : Result) (d1 d2 : nat) :
  mounted s = true ->
  pending s = [AddNote t c] ->
  debounce <= d1 ->
  let s' := run [Settle 0 (fulfilled i t' c'); Elapse d1; Settle 0 result;
                 Elapse d2] s in
  calls s' = calls s ++ [UpdateNote i (Some t') (Some c')]
  /\ note s' = mkNote (Some i) (Some t') (Some c')
  /\ pending s' = []
  /\ timeoutId s' = None
  /\ updateError s' = error result.
Proof.
  intros Hm Hp Hd s'. subst s'.
  assert (Hk : pending s !! 0 = Some (AddNote t c)) by (by rewrite Hp).
  destruct (settle_add_fields s 0 t c (fulfilled i t' c') Hk Hm)
    as (Hm1 & Hn1 & Ht1 & Hp1 & Hc1 & _).
  cbn [fulfilled data spread] in Hn1, Ht1.
  destruct (fire_fields _ _ _ d1 Ht1 Hd)
    as (Hm2 & Hn2 & Ht2 & Hp2 & Hc2 & _ & _ & Hlat).
  rewrite Hp1, Hp in Hp2, Hlat.
  cbn [delete list_delete app length saveNote id title content] in Hp2, Hc2, Hlat.
  rewrite !run_cons. cbn [run foldl].
  set (s2 := step (Elapse d1) (step (Settle 0 (fulfilled i t' c')) s)) in *.
  assert (Hs3 : step (Settle 0 result) s2
                = hookSettled true (UpdateNote i (Some t') (Some c')) result
                              (setPending [] s2)).
  { unfold step. rewrite Hp2. cbn [lookup list_lookup]. by rewrite Hlat. }
  rewrite Hs3. unfold step. screen_simpl. rewrite Ht2. screen_simpl.
  by rewrite Hc2, Hc1, Hn2, Hn1.
Qed.

Lemma fulfilled_add_then_one_update_witness :
  let s := run [ChangeTitle "A"; Elapse 500] (mount newNote) in
  mounted s = true
  /\ pending s = [AddNote (Some "A") (Some "")]
  /\ debounce <= 500
  /\ calls (run [Settle 0 (fulfilled 1 "A" ""); Elapse 500;
                 Settle 0 (rejected "write failed"); Elapse 5000] s)
     = [AddNote (Some "A") (Some ""); UpdateNote 1 (Some "A") (Some "")].
Proof.
  intros s.
  assert (Hm : mounted s = true) by reflexivity.
  assert (Hp : pending s = [AddNote (Some "A") (Some "")]) by reflexivity.
  assert (Hd : debounce <= 500) by (unfold debounce; lia).
  split; [exact Hm|]. split; [exact Hp|]. split; [exact Hd|].
  exact (proj1 (fulfilled_add_then_one_update
                  s _ _ 1%positive "A" "" (rejected "write failed")
                  500 5000 Hm Hp Hd)).
Defined.

(** X10: an edit typed while an update is awaited is kept.  On a note
    with an id, when the user edits while an update is pending and that
    update settles, fulfilled or rejected, before the delay is over, the
    note still holds the edit and the timeout still runs; when the delay is
    over one update goes out with the edited note, and the update hook,
    following that new call, shows no error. *)
Theorem edit_during_update_is_saved (s : EditScreen) (i j : Id) (k : nat)
        (t c : option string) (e : Edit) (result : Result) (d1 d2 : nat) :
  mounted s = true ->
  id (note s) = Some i ->
  pending s !! k = Some (UpdateNote j t c) ->
  d1 < debounce ->
  debounce <= d1 + d2 ->
  let n' := applyEdit e (note s) in
  let s' := run [editEvent e; Elapse d1; Settle k result; Elapse d2] s in
  note s' = n'
  /\ calls s' = calls s ++ [UpdateNote i (title n') (content n')]
  /\ updateError s' = None.
Proof.
  intros Hm Hid Hk Hd1 Hd2 n' s'. subst s'.
  destruct (edit_arms e s Hm) as ((Hm1 & Ht1) & Hc1 & Hn1).
  assert (Hp1 : pending (step (editEvent e) s) = pending s).
  { destruct e; unfold editEvent, step; rewrite Hm; screen_simpl;
      by rewrite Hm. }
  set (s1 := step (editEvent e) s) in *.
  assert (Hs2 : step (Elapse d1) s1
                = setTimeoutId (Some (debounce - d1, note s1)) s1).
  { unfold step. rewrite Ht1. by destruct (Nat.ltb_spec d1 debounce); [|lia]. }
  rewrite !run_cons. cbn [run foldl]. fold s1. rewrite Hs2.
  set (s2 := setTimeoutId (Some (debounce - d1, note s1)) s1).
  assert (Hk2 : pending s2 !! k = Some (UpdateNote j t c)).
  { unfold s2. screen_simpl. by rewrite Hp1. }
  assert (Hs3 : step (Settle k result) s2
                = hookSettled (isLatestCall k (UpdateNote j t c) s2)
                    (UpdateNote j t c) result
                    (setPending (delete k (pending s2)) s2)).
  { unfold step. by rewrite Hk2. }
  rewrite Hs3. unfold step. screen_simpl. unfold s2. screen_simpl.
  destruct (Nat.ltb_spec d2 (debounce - d1)); [lia|]. screen_simpl.
  rewrite Hc1, Hn1. unfold saveNote. rewrite id_applyEdit, Hid. done.
Qed.

Lemma edit_during_update_is_saved_witness :
  let s := run [Elapse 500]
               (mount (mkNote (Some 3%positive) (Some "list") (Some "milk"))) in
  mounted s = true
  /\ id (note s) = Some 3%positive
  /\ pending s !! 0 = Some (UpdateNote 3 (Some "list") (Some "milk"))
  /\ 100 < debounce
  /\ debounce <= 100 + 400
  /\ calls (run [editEvent (EditContent "milk, eggs"); Elapse 100;
                 Settle 0 (rejected "write failed"); Elapse 400] s)
     = [UpdateNote 3 (Some "list") (Some "milk");
        UpdateNote 3 (Some "list") (Some "milk, eggs")].
Proof.
  intros s.
  assert (Hm : mounted s = true) by reflexivity.
  assert (Hid : id (note s) = Some 3%positive) by reflexivity.
  assert (Hk : pending s !! 0 = Some (UpdateNote 3 (Some "list") (Some "milk")))
    by reflexivity.
  assert (Hd1 : 100 < debounce) by (unfold debounce; lia).
  assert (Hd2 : debounce <= 100 + 400) by (unfold debounce; lia).
  split; [exact Hm|]. split; [exact Hid|]. split; [exact Hk|].
  split; [exact Hd1|]. split; [exact Hd2|].
  exact (proj1 (proj2 (edit_during_update_is_saved
                         s 3 3 0 _ _ (EditContent "milk, eggs")
                         (rejected "write failed") 100 400
                         Hm Hid Hk Hd1 Hd2))).
Defined.

End AfterTheAdd.

(** * Properties of the home screen *)

Section ClearAll.

Lemma trashPresses_cons (e : HomeEvent) (es : list HomeEvent) :
  trashPresses (e :: es) = (if isPressTrash e then 1 else 0) + trashPresses es.
Proof. unfold trashPresses. cbn. by destruct (isPressTrash e). Qed.

Lemma gated_step (budget : nat) (e : HomeEvent) (h : Home) :
  gated budget h ->
  gated (budget + if isPressTrash e then 1 else 0) (homeStep e h).
Proof.
  unfold gated. intros Hg.
  destruct e as [text|item| | | | |]; cbn;
    destruct (modalVisible h) eqn:Hv; cbn; rewrite ?Hv; lia.
Qed.

Lemma gated_run (es : list HomeEvent) (h : Home) (budget : nat) :
  gated budget h -> gated (budget + trashPresses es) (homeRun es h).
Proof.
  revert h budget. induction es as [|e es IH]; intros h budget Hg.
  - cbn. unfold trashPresses. cbn. by rewrite Nat.add_0_r.
  - rewrite trashPresses_cons, Nat.add_assoc.
    apply (IH (homeStep e h)). by apply gated_step.
Qed.

(** X9: clearing all notes needs a confirmation.  Whatever the user does on
    the home screen, [deleteAllNotes] is called at most once for each press
    of the clear-all button, and only from the confirmation box that the
    press opened: while the box is visible one press is still unused, and a
    confirmation hides the box and uses it. *)
Theorem clear_all_needs_confirmation (es : list HomeEvent) :
  let h := homeRun es homeInit in
  deleteAllCalls h <= trashPresses es
  /\ (modalVisible h = true -> deleteAllCalls h < trashPresses es)
  /\ modalVisible (homeStep PressYes h) = false
  /\ deleteAllCalls (homeStep PressYes h) <= trashPresses es
  /\ (modalVisible h = false ->
      deleteAllCalls (homeStep PressYes h) = deleteAllCalls h).
Proof.
  intros h.
  assert (Hg0 : gated 0 homeInit) by (unfold gated; cbn; lia).
  pose proof (gated_run es _ 0 Hg0) as Hg.
  fold h in Hg. unfold gated in Hg. cbn in Hg.
  split; [lia|]. split; [intros Hv; rewrite Hv in Hg; lia|].
  cbn. destruct (modalVisible h) eqn:Hv; cbn; rewrite ?Hv;
    repeat split; try done; lia.
Qed.

Lemma clear_all_needs_confirmation_witness :
  let es := [PressTrash; PressCancel; ChangeSearch "milk"; PressYes;
             PressTrash; PressYes; PressYes] in
  let h := homeRun es homeInit in
  deleteAllCalls h <= trashPresses es
  /\ deleteAllCalls h = 1
  /\ trashPresses es = 2
  /\ modalVisible h = false
  /\ deleteAllCalls (homeStep PressYes h) = 1.
Proof.
  intros es h.
  assert (Hv : modalVisible h = false) by reflexivity.
  split; [exact (proj1 (clear_all_needs_confirmation es))|].
  split; [reflexivity|]. split; [reflexivity|]. split; [exact Hv|].
  exact (proj2 (proj2 (proj2 (proj2 (clear_all_needs_confirmation es)))) Hv).
Defined.

End ClearAll.
